(** * Boundary-condition identifiers and records, and the scalar integrands

    A shallow embedding of [Examples/src/bcHandler/bound_cond.hpp] and of
    [Examples/src/QuadratureRule/DynamicIntegrands/integrands.cpp].

    Conventions of the embedding:
    - a C++ [double] is an IEEE 754 binary64 value, Rocq's primitive [float];
    - a [double const *] is [None] for the null pointer and [Some a] for a
      pointer to the array [a];
    - an [int] is a [Z] (the code never does arithmetic on names or entity
      indices, so no wrap-around can occur);
    - [std::string] is [string], whose characters compare by their code
      (as [std::char_traits<char>::lt] does);
    - [std::function<Sig>] is an [option]: [None] is the empty wrapper, and
      calling it throws [std::bad_function_call];
    - the class templates [std::less<T>] and [std::equal_to<T>] are the type
      classes [Less] and [EqualTo], their specialisations are instances;
    - member functions that assign to a field return the updated record. *)

From Stdlib Require Import ZArith Bool List String Ascii.
From Stdlib Require Import Floats.PrimFloat.
From Stdlib Require Floats.SpecFloat Floats.FloatOps Floats.FloatAxioms.
From stdpp Require Import base decidable list strings.

#[local] Open Scope Z_scope.

(** ** Outcome of a call that may throw *)

Inductive exception : Type :=
  | bad_function_call.

Inductive outcome (A : Type) : Type :=
  | Returns (a : A)
  | Throws (e : exception).
Arguments Returns {A} a.
Arguments Throws {A} e.

(** [std::function<Sig>]: a wrapper that is empty or holds a target. *)
Definition std_function (Sig : Type) : Type := option Sig.

(** ** The function objects [std::less<T>] and [std::equal_to<T>] *)

Class Less (T : Type) : Type := less : T -> T -> bool.
Class EqualTo (T : Type) : Type := equal_to : T -> T -> bool.
#[global] Hint Mode Less ! : typeclass_instances.
#[global] Hint Mode EqualTo ! : typeclass_instances.

(** [std::less<int>] *)
#[global] Instance less_int : Less Z := Z.ltb.

(** [std::less<std::string>]: lexicographic, character by character. *)
#[global] Instance less_string : Less string := String.ltb.

(** The primary template [std::equal_to<T>] is [operator==] of [T]. *)
#[global] Instance equal_to_int : EqualTo Z := Z.eqb.

#[global] Instance equal_to_string : EqualTo string := String.eqb.

Module FEM.

(** [enum BCType]: the enumerators take the values 0, 1, 2, 3, 4. *)
Inductive BCType : Type :=
  | Dirichlet | Neumann | Robin | Generic | Other.

Definition BCType_value (t : BCType) : Z :=
  match t with
  | Dirichlet => 0
  | Neumann => 1
  | Robin => 2
  | Generic => 3
  | Other => 4
  end.

#[global] Instance BCType_eq_dec : EqDecision BCType.
Proof. solve_decision. Defined.

(** [std::less<BCType>]: the built-in [<] on the enumerators' values. *)
#[global] Instance less_BCType : Less BCType :=
  fun a b => BCType_value a <? BCType_value b.

(** The built-in [==] on two [BCType] values. *)
Definition BCType_eq (a b : BCType) : bool :=
  BCType_value a =? BCType_value b.

(** [template <class BCName=std::string> struct BCId] *)
Record BCId (BCName : Type) : Type := Build_BCId {
  type : BCType;
  name : BCName
}.
Arguments Build_BCId {BCName} type name.
Arguments type {BCName} b.
Arguments name {BCName} b.

(** [make_BCId(typ, n)] *)
Definition make_BCId {BCName : Type} (typ : BCType) (n : BCName)
  : BCId BCName := Build_BCId typ n.

(** The specialisation [std::less<BCId<BCName> >]. *)
#[global] Instance less_BCId {BCName : Type} `{Less BCName}
  : Less (BCId BCName) :=
  fun a b =>
    if negb (less (type a) (type b)) && negb (less (type b) (type a))
    then less (name a) (name b)
    else less (type a) (type b).

(** The specialisation [std::equal_to<BCId<BCName> >]. *)
#[global] Instance equal_to_BCId {BCName : Type} `{Less BCName}
  : EqualTo (BCId BCName) :=
  fun a b => negb (less a b) && negb (less b a).

(** [double const * coord] *)
Definition coord_ptr : Type := option (list float).

(** [typedef std::function<double (double const t, double const * coord)> BcFun] *)
Definition BcFun : Type := std_function (float -> coord_ptr -> float).

(** [BCFun zerofun;]: a namespace-scope object defined without an
    initialiser, hence default-constructed: the empty wrapper. (The header
    spells its type [BCFun]; the only function type it declares is [BcFun],
    and [zerofun] is the default argument of a [BcFun] parameter.) *)
Definition zerofun : BcFun := None.

(** [class BCBase]. The class is written against the name type of its
    identifier, [std::string] in the first constructor and [int] in the
    second; the record takes it as a parameter. *)
Record BCBase (BCName : Type) : Type := Build_BCBase {
  _entities : list Z;
  _fun : BcFun;
  _id : BCId BCName
}.
Arguments Build_BCBase {BCName} _entities _fun _id.
Arguments _entities {BCName} b.
Arguments _fun {BCName} b.
Arguments _id {BCName} b.

Section BCBase_members.
Context {BCName : Type}.

(** [BCBase(BCType t, BCName n, BcFun fun) : _entities(), _fun(fun), _id(t,n)] *)
Definition BCBase_ctor (t : BCType) (n : BCName) (f : BcFun)
  : BCBase BCName :=
  {| _entities := []; _fun := f; _id := Build_BCId t n |}.

Definition BCBase_get_Id (b : BCBase BCName) : BCId BCName := _id b.

Definition BCBase_set_Id (id : BCId BCName) (b : BCBase BCName)
  : BCBase BCName :=
  {| _entities := _entities b; _fun := _fun b; _id := id |}.

Definition BCBase_set_fun (f : BcFun) (b : BCBase BCName)
  : BCBase BCName :=
  {| _entities := _entities b; _fun := f; _id := _id b |}.

Definition BCBase_name (b : BCBase BCName) : BCName := name (_id b).

Definition BCBase_type (b : BCBase BCName) : BCType := type (_id b).

(** [return _fun(t,coord);] *)
Definition BCBase_apply (b : BCBase BCName) (t : float) (coord : coord_ptr)
  : outcome float :=
  match _fun b with
  | Some f => Returns (f t coord)
  | None => Throws bad_function_call
  end.

(** Modelled from the spec: [set_entities] is only declared in the header
    (its body is in the absent [bound_cond.cpp]); the spec has it
    "replace the entity index list wholesale". *)
Definition BCBase_set_entities (e : list Z) (b : BCBase BCName)
  : BCBase BCName :=
  {| _entities := e; _fun := _fun b; _id := _id b |}.

Definition BCBase_entities (b : BCBase BCName) : list Z := _entities b.

Context `{Less BCName}.

(** [operator <(l, r)]: [l._id<r._id]. On identifiers the header provides
    the ordering as the [std::less] specialisation. *)
Definition BCBase_lt (l r : BCBase BCName) : bool :=
  less (_id l) (_id r).

(** [operator ==(l, r)]: [l._id==r._id], the [std::equal_to]
    specialisation on identifiers. *)
Definition BCBase_eq (l r : BCBase BCName) : bool :=
  equal_to (_id l) (_id r).

(** [class isBCTypeEqual]: the constructor stores [t], the call operator
    is [b._id.type==_type]. *)
Definition isBCTypeEqual (_type : BCType) (b : BCBase BCName) : bool :=
  BCType_eq (type (_id b)) _type.

End BCBase_members.

(** [explicit BCBase(BCType t=Dirichlet, BCName n=std::string("Homogeneous"),
    BcFun fun=zerofun)], each argument optional from the right. *)
Definition BCBase_string (t : option BCType) (n : option string)
    (f : option BcFun) : BCBase string :=
  BCBase_ctor (default Dirichlet t) (default "Homogeneous"%string n)
              (default zerofun f).

(** [explicit BCBase(BCType t, int n, BcFun fun=zerofun)] *)
Definition BCBase_int (t : BCType) (n : Z) (f : option BcFun) : BCBase Z :=
  BCBase_ctor t n (default zerofun f).

(** [class isBCNameEqual]: the constructor stores [n], the call operator is
    [b._id.name==_name], the [==] of the name type. *)
Definition isBCNameEqual {BCName : Type} `{EqualTo BCName}
    (_name : BCName) (b : BCBase BCName) : bool :=
  equal_to (name (_id b)) _name.

End FEM.

(** ** integrands.cpp *)

Section Integrands.
(** [sin] and [cos] of the C mathematical library. *)
Variables sin cos : float -> float.

Definition fsincos (x : float) : float := (sin x * cos x)%float.

Definition square (x : float) : float := (x * x)%float.
End Integrands.


(** [std::copy_if(first, last, out, pred)]: the elements on which [pred]
    holds, in the order of the input range. *)
Definition copy_if {A : Type} (pred : A -> bool) (l : list A) : list A :=
  List.filter pred l.

(** A range whose neighbours are all related by [rel]. *)
Fixpoint all_adjacent {A : Type} (rel : A -> A -> bool) (l : list A) : bool :=
  match l with
  | [] => true
  | x :: l' =>
      match l' with
      | [] => true
      | y :: _ => rel x y && all_adjacent rel l'
      end
  end.

(** [std::is_sorted(first, last, comp)]: no element is less than the one
    before it. *)
Definition is_sorted {A : Type} (comp : A -> A -> bool) (l : list A) : bool :=
  all_adjacent (fun x y => negb (comp y x)) l.

(** The order in which a [std::set<T, comp>] is traversed: every element is
    less than the next one. *)
Definition is_strictly_sorted {A : Type} (comp : A -> A -> bool)
    (l : list A) : bool :=
  all_adjacent comp l.

(** Truncated Maclaurin polynomials: a mathematical library small enough to
    run inside Rocq, used to instantiate [sin] and [cos]. *)
Definition sin_poly (x : float) : float :=
  (x - x * x * x / 6 + x * x * x * x * x / 120)%float.

Definition cos_poly (x : float) : float :=
  (1 - x * x / 2 + x * x * x * x / 24)%float.

(** ** Requirements on a name type

    [std::less<BCName>] has to be a strict total order for [BCName] to serve
    as a key. *)

Definition less_irreflexive (T : Type) `{Less T} : Prop :=
  forall x : T, less x x = false.

Definition less_transitive (T : Type) `{Less T} : Prop :=
  forall x y z : T, less x y = true -> less y z = true -> less x z = true.

Definition less_asymmetric (T : Type) `{Less T} : Prop :=
  forall x y : T, less x y = true -> less y x = false.

Definition less_connected (T : Type) `{Less T} : Prop :=
  forall x y : T, x <> y -> less x y = true \/ less y x = true.

(** ** The order on characters and strings *)

Lemma ascii_compare_refl (a : ascii) : Ascii.compare a a = Eq.
Proof. apply N.compare_refl. Qed.

Lemma ascii_compare_lt_trans (a b c : ascii) :
  Ascii.compare a b = Lt -> Ascii.compare b c = Lt -> Ascii.compare a c = Lt.
Proof.
  unfold Ascii.compare. rewrite !N.compare_lt_iff. apply N.lt_trans.
Qed.

Lemma string_compare_refl (s : string) : String.compare s s = Eq.
Proof.
  induction s as [|a s IH]; simpl; [reflexivity|].
  now rewrite ascii_compare_refl.
Qed.

Lemma string_compare_lt_trans (s1 s2 s3 : string) :
  String.compare s1 s2 = Lt -> String.compare s2 s3 = Lt ->
  String.compare s1 s3 = Lt.
Proof.
  revert s2 s3.
  induction s1 as [|a s1 IH]; intros [|b s2] [|c s3]; simpl;
    try discriminate; try reflexivity.
  destruct (Ascii.compare a b) eqn:Eab; try discriminate;
    destruct (Ascii.compare b c) eqn:Ebc; try discriminate; intros H12 H23.
  - apply Ascii.compare_eq_iff in Eab, Ebc. subst.
    rewrite ascii_compare_refl. now apply IH with s2.
  - apply Ascii.compare_eq_iff in Eab. subst. now rewrite Ebc.
  - apply Ascii.compare_eq_iff in Ebc. subst. now rewrite Eab.
  - now rewrite (ascii_compare_lt_trans a b c).
Qed.

Lemma less_string_irreflexive : less_irreflexive string.
Proof.
  intros s. unfold less, less_string, String.ltb.
  now rewrite string_compare_refl.
Qed.

Lemma less_string_transitive : less_transitive string.
Proof.
  intros x y z. unfold less, less_string, String.ltb.
  destruct (String.compare x y) eqn:Exy; try discriminate.
  destruct (String.compare y z) eqn:Eyz; try discriminate.
  now rewrite (string_compare_lt_trans x y z).
Qed.

Lemma less_string_connected : less_connected string.
Proof.
  intros x y Hne. unfold less, less_string, String.ltb.
  rewrite (String.compare_antisym y x).
  destruct (String.compare x y) eqn:Exy; simpl; auto.
  apply String.compare_eq_iff in Exy. contradiction.
Qed.

(** The same for [int] names. *)

Lemma less_int_irreflexive : less_irreflexive Z.
Proof. intros x. apply Z.ltb_irrefl. Qed.

Lemma less_int_transitive : less_transitive Z.
Proof.
  intros x y z. unfold less, less_int. rewrite !Z.ltb_lt. apply Z.lt_trans.
Qed.

Lemma less_int_connected : less_connected Z.
Proof.
  intros x y Hne. unfold less, less_int. rewrite !Z.ltb_lt. lia.
Qed.

Import FEM.

(** ** The order on [BCType] *)

Lemma BCType_value_inj (a b : BCType) :
  BCType_value a = BCType_value b -> a = b.
Proof. destruct a, b; simpl; intros E; solve [reflexivity | discriminate E]. Qed.

Lemma BCType_eq_true (a b : BCType) : BCType_eq a b = true <-> a = b.
Proof.
  unfold BCType_eq. rewrite Z.eqb_eq. split.
  - apply BCType_value_inj.
  - now intros ->.
Qed.

Lemma less_BCType_lt (a b : BCType) :
  less a b = true <-> BCType_value a < BCType_value b.
Proof. unfold less, less_BCType. apply Z.ltb_lt. Qed.

Lemma less_BCType_irreflexive : less_irreflexive BCType.
Proof. intros a. apply Z.ltb_irrefl. Qed.

Lemma less_BCType_transitive : less_transitive BCType.
Proof. intros x y z. rewrite !less_BCType_lt. apply Z.lt_trans. Qed.

Lemma less_BCType_connected : less_connected BCType.
Proof.
  intros x y Hne. rewrite !less_BCType_lt.
  assert (BCType_value x <> BCType_value y)
    by (intros E; apply Hne, BCType_value_inj, E).
  lia.
Qed.

(** The test [!less(a.type,b.type) && !less(b.type,a.type)] of the comparator
    succeeds exactly on equal types. *)
Lemma same_type_test (s t : BCType) :
  negb (less s t) && negb (less t s) = true <-> s = t.
Proof.
  unfold less, less_BCType. split.
  - intros E. apply andb_prop in E as [E1 E2].
    apply negb_true_iff, Z.ltb_ge in E1, E2.
    apply BCType_value_inj. lia.
  - intros ->. now rewrite Z.ltb_irrefl.
Qed.

(** ** The comparator on identifiers *)

Section Comparator.
Context {BCName : Type} `{Less BCName}.

Lemma less_BCId_same_type (a b : BCId BCName) :
  type a = type b -> less a b = less (name a) (name b).
Proof.
  intros E. unfold less at 1, less_BCId.
  now rewrite (proj2 (same_type_test (type a) (type b)) E).
Qed.

Lemma less_BCId_other_type (a b : BCId BCName) :
  type a <> type b -> less a b = less (type a) (type b).
Proof.
  intros Hne. unfold less at 1, less_BCId.
  destruct (negb (less (type a) (type b)) && negb (less (type b) (type a)))
    eqn:E; [|reflexivity].
  apply same_type_test in E. contradiction.
Qed.

Lemma less_BCId_cases (a b : BCId BCName) :
  less a b = true <->
  less (type a) (type b) = true \/
  (type a = type b /\ less (name a) (name b) = true).
Proof.
  destruct (decide (BCType_value (type a) = BCType_value (type b))) as [E|Hne].
  - apply BCType_value_inj in E.
    rewrite (less_BCId_same_type a b E), E, less_BCType_irreflexive.
    intuition discriminate.
  - assert (type a <> type b) as Hne' by (now intros E; apply Hne; rewrite E).
    rewrite (less_BCId_other_type a b Hne'). intuition.
Qed.

Lemma BCId_eq_fields (a b : BCId BCName) :
  type a = type b -> name a = name b -> a = b.
Proof. destruct a, b; simpl; now intros -> ->. Qed.

Lemma less_BCId_irreflexive :
  less_irreflexive BCName -> less_irreflexive (BCId BCName).
Proof.
  intros Hirr a. now rewrite (less_BCId_same_type a a eq_refl).
Qed.

Lemma less_BCId_transitive :
  less_transitive BCName -> less_transitive (BCId BCName).
Proof.
  intros Htr a b c. rewrite !less_BCId_cases.
  intros [Hab|[Eab Hab]] [Hbc|[Ebc Hbc]].
  - left. now apply (less_BCType_transitive _ (type b)).
  - left. now rewrite <- Ebc.
  - left. now rewrite Eab.
  - right. split; [congruence|]. now apply (Htr _ (name b)).
Qed.

Lemma less_BCId_asymmetric :
  less_irreflexive BCName -> less_transitive BCName ->
  less_asymmetric (BCId BCName).
Proof.
  intros Hirr Htr a b Hab.
  destruct (less b a) eqn:Hba; [|reflexivity].
  rewrite <- (less_BCId_irreflexive Hirr a).
  symmetry. now apply (less_BCId_transitive Htr a b a).
Qed.

Lemma less_BCId_connected :
  less_connected BCName -> less_connected (BCId BCName).
Proof.
  intros Hco a b Hne. rewrite !less_BCId_cases.
  destruct (decide (BCType_value (type a) = BCType_value (type b))) as [E|Ht].
  - apply BCType_value_inj in E.
    destruct (Hco (name a) (name b)) as [Hl|Hl].
    + intros En. apply Hne. now apply BCId_eq_fields.
    + left. right. now split.
    + right. right. now split.
  - destruct (less_BCType_connected (type a) (type b)) as [Hl|Hl].
    + intros E. apply Ht. now rewrite E.
    + left. now left.
    + right. now left.
Qed.

End Comparator.

(** ** The identifier comparator and the derived equality *)

(** C2: the comparator on identifiers is the two-level lexicographic rule.
    When the kinds of [a] and [b] differ the result is the comparison of the
    kinds by their enumeration order, whatever the names are; when the kinds
    are equal the result is the comparison of the names by their own order. *)
Theorem less_BCId_two_level {BCName : Type} `{Less BCName}
    (a b : BCId BCName) :
  (type a <> type b ->
     less a b = (BCType_value (type a) <? BCType_value (type b))) /\
  (type a = type b -> less a b = less (name a) (name b)).
Proof.
  split.
  - apply less_BCId_other_type.
  - apply less_BCId_same_type.
Qed.

Lemma less_BCId_two_level_witness :
  (type (make_BCId Dirichlet "Wall") <> type (make_BCId Neumann "Inlet") /\
   less (make_BCId Dirichlet "Wall") (make_BCId Neumann "Inlet") = true) /\
  (type (make_BCId Robin "Wall") = type (make_BCId Robin "Inlet") /\
   less (make_BCId Robin "Wall") (make_BCId Robin "Inlet") = false).
Proof.
  split; split.
  - discriminate.
  - apply (proj1 (less_BCId_two_level (make_BCId Dirichlet "Wall")
                                      (make_BCId Neumann "Inlet"))).
    discriminate.
  - reflexivity.
  - rewrite (proj2 (less_BCId_two_level (make_BCId Robin "Wall")
                                        (make_BCId Robin "Inlet")) eq_refl).
    reflexivity.
Defined.

(** C3: [equal_to] on two identifiers holds exactly when neither is less than
    the other; it is computed from the comparator alone, as the conjunction
    of the two negated comparisons. *)
Theorem equal_to_BCId_from_less {BCName : Type} `{Less BCName}
    (a b : BCId BCName) :
  equal_to a b = negb (less a b) && negb (less b a) /\
  (equal_to a b = true <-> less a b = false /\ less b a = false).
Proof.
  split; [reflexivity|].
  unfold equal_to, equal_to_BCId.
  rewrite andb_true_iff, !negb_true_iff. reflexivity.
Qed.

(** C4: when the names are strictly and totally ordered by their own
    comparator, so are the identifiers: the comparator is irreflexive,
    transitive, never holds in both directions, and relates any two distinct
    identifiers one way or the other. *)
Theorem less_BCId_strict_total {BCName : Type} `{Less BCName} :
  less_irreflexive BCName -> less_transitive BCName ->
  less_connected BCName ->
  forall a b c : BCId BCName,
    less a a = false /\
    (less a b = true -> less b c = true -> less a c = true) /\
    (less a b = true -> less b a = true -> False) /\
    (a <> b -> less a b = true \/ less b a = true).
Proof.
  intros Hirr Htr Hco a b c. repeat split.
  - apply (less_BCId_irreflexive Hirr).
  - apply (less_BCId_transitive Htr).
  - intros Hab Hba.
    rewrite (less_BCId_asymmetric Hirr Htr a b Hab) in Hba. discriminate.
  - apply (less_BCId_connected Hco).
Qed.

Lemma less_BCId_strict_total_witness :
  less_irreflexive string /\ less_transitive string /\
  less_connected string /\
  less (make_BCId Dirichlet "Floor") (make_BCId Dirichlet "Floor") = false /\
  (less (make_BCId Dirichlet "Floor") (make_BCId Dirichlet "Wall") = true ->
   less (make_BCId Dirichlet "Wall") (make_BCId Neumann "Inlet") = true ->
   less (make_BCId Dirichlet "Floor") (make_BCId Neumann "Inlet") = true) /\
  (less (make_BCId Dirichlet "Floor") (make_BCId Dirichlet "Wall") = true ->
   less (make_BCId Dirichlet "Wall") (make_BCId Dirichlet "Floor") = true ->
   False) /\
  (make_BCId Dirichlet "Floor" <> make_BCId Dirichlet "Wall" ->
   less (make_BCId Dirichlet "Floor") (make_BCId Dirichlet "Wall") = true \/
   less (make_BCId Dirichlet "Wall") (make_BCId Dirichlet "Floor") = true).
Proof.
  split; [apply less_string_irreflexive|].
  split; [apply less_string_transitive|].
  split; [apply less_string_connected|].
  apply (less_BCId_strict_total
           less_string_irreflexive less_string_transitive
           less_string_connected
           (make_BCId Dirichlet "Floor") (make_BCId Dirichlet "Wall")
           (make_BCId Neumann "Inlet")).
Defined.

(** ** Records *)

Section Records.
Context {BCName : Type}.

Lemma BCBase_lt_by_id `{Less BCName} (l r l' r' : BCBase BCName) :
  _id l = _id l' -> _id r = _id r' -> BCBase_lt l r = BCBase_lt l' r'.
Proof. unfold BCBase_lt. now intros -> ->. Qed.

Lemma BCBase_eq_by_id `{Less BCName} (l r l' r' : BCBase BCName) :
  _id l = _id l' -> _id r = _id r' -> BCBase_eq l r = BCBase_eq l' r'.
Proof. unfold BCBase_eq. now intros -> ->. Qed.

(** Records with the same identifier are equivalent for the order. *)
Lemma BCBase_same_id `{Less BCName} (l r : BCBase BCName) :
  less_irreflexive BCName -> _id l = _id r ->
  BCBase_eq l r = true /\ BCBase_lt l r = false /\ BCBase_lt r l = false.
Proof.
  intros Hirr E.
  unfold BCBase_eq, BCBase_lt, equal_to, equal_to_BCId. rewrite E.
  now rewrite (less_BCId_irreflexive Hirr (_id r)).
Qed.

(** A record with a target function returns what the target returns. *)
Lemma BCBase_apply_target (b : BCBase BCName)
    (f : float -> coord_ptr -> float) (t : float) (coord : coord_ptr) :
  _fun b = Some f -> BCBase_apply b t coord = Returns (f t coord).
Proof. unfold BCBase_apply. now intros ->. Qed.

Lemma isBCTypeEqual_true (k : BCType) (b : BCBase BCName) :
  isBCTypeEqual k b = true <-> BCBase_type b = k.
Proof. apply BCType_eq_true. Qed.

Lemma copy_if_isBCTypeEqual (k : BCType) (l : list (BCBase BCName)) :
  copy_if (isBCTypeEqual k) l = filter (fun b => BCBase_type b = k) l.
Proof.
  unfold copy_if.
  induction l as [|b l IH]; [reflexivity|].
  simpl. rewrite filter_cons, IH.
  destruct (decide (BCBase_type b = k)) as [E|E].
  - now rewrite (proj2 (isBCTypeEqual_true k b) E).
  - destruct (isBCTypeEqual k b) eqn:Ek; [|reflexivity].
    apply isBCTypeEqual_true in Ek. contradiction.
Qed.

End Records.

(** C5: the order and the equality of two records are those of their
    identifiers. With the identifiers fixed, no choice of entity lists and
    functions on either side changes [operator<] or [operator==]; and two
    records built from the same kind and name, with a string or an integer
    name, compare equal (and neither is less than the other) whatever entity
    lists and functions they were given since. *)
Theorem BCBase_compared_by_id :
  (forall (BCName : Type) (L : Less BCName) (idl idr : BCId BCName)
          (el er el' er' : list Z) (fl fr fl' fr' : BcFun),
     BCBase_lt (Build_BCBase el fl idl) (Build_BCBase er fr idr)
     = BCBase_lt (Build_BCBase el' fl' idl) (Build_BCBase er' fr' idr) /\
     BCBase_eq (Build_BCBase el fl idl) (Build_BCBase er fr idr)
     = BCBase_eq (Build_BCBase el' fl' idl) (Build_BCBase er' fr' idr)) /\
  (forall (k : BCType) (n : string) (e1 e2 : list Z)
          (f1 f2 : option BcFun) (f1' f2' : BcFun),
     let l := BCBase_set_fun f1'
                (BCBase_set_entities e1 (BCBase_string (Some k) (Some n) f1)) in
     let r := BCBase_set_fun f2'
                (BCBase_set_entities e2 (BCBase_string (Some k) (Some n) f2)) in
     BCBase_eq l r = true /\ BCBase_lt l r = false /\ BCBase_lt r l = false) /\
  (forall (k : BCType) (n : Z) (e1 e2 : list Z)
          (f1 f2 : option BcFun) (f1' f2' : BcFun),
     let l := BCBase_set_fun f1'
                (BCBase_set_entities e1 (BCBase_int k n f1)) in
     let r := BCBase_set_fun f2'
                (BCBase_set_entities e2 (BCBase_int k n f2)) in
     BCBase_eq l r = true /\ BCBase_lt l r = false /\ BCBase_lt r l = false).
Proof.
  split; [intros; split; reflexivity|].
  split; intros k n e1 e2 f1 f2 f1' f2' l r.
  - apply (BCBase_same_id l r less_string_irreflexive). reflexivity.
  - apply (BCBase_same_id l r less_int_irreflexive). reflexivity.
Qed.

(** C6: [set_fun] replaces the function and [set_entities] the entity list,
    and nothing else. Neither changes the identifier, so the record compares
    with any other record, in either position, exactly as it did before. *)
Theorem setters_keep_id {BCName : Type} `{Less BCName}
    (b other : BCBase BCName) (f : BcFun) (e : list Z) :
  (_fun (BCBase_set_fun f b) = f /\
   _entities (BCBase_set_fun f b) = _entities b /\
   _id (BCBase_set_fun f b) = _id b) /\
  (_entities (BCBase_set_entities e b) = e /\
   _fun (BCBase_set_entities e b) = _fun b /\
   _id (BCBase_set_entities e b) = _id b) /\
  (BCBase_lt (BCBase_set_fun f b) other = BCBase_lt b other /\
   BCBase_lt other (BCBase_set_fun f b) = BCBase_lt other b /\
   BCBase_eq (BCBase_set_fun f b) other = BCBase_eq b other /\
   BCBase_eq other (BCBase_set_fun f b) = BCBase_eq other b) /\
  (BCBase_lt (BCBase_set_entities e b) other = BCBase_lt b other /\
   BCBase_lt other (BCBase_set_entities e b) = BCBase_lt other b /\
   BCBase_eq (BCBase_set_entities e b) other = BCBase_eq b other /\
   BCBase_eq other (BCBase_set_entities e b) = BCBase_eq other b).
Proof. repeat split. Qed.

(** C8: a record built from a kind, a name and a function starts with an
    empty entity list, and [name], [type] and [get_Id] give back the name, the
    kind and the identifier made of both. This holds for the constructor
    taking a string name and for the one taking an integer name. *)
Theorem BCBase_ctor_accessors :
  (forall (BCName : Type) (k : BCType) (n : BCName) (f : BcFun),
     BCBase_entities (BCBase_ctor k n f) = [] /\
     BCBase_name (BCBase_ctor k n f) = n /\
     BCBase_type (BCBase_ctor k n f) = k /\
     BCBase_get_Id (BCBase_ctor k n f) = make_BCId k n /\
     _fun (BCBase_ctor k n f) = f) /\
  (forall (k : BCType) (n : string) (f : BcFun),
     BCBase_string (Some k) (Some n) (Some f) = BCBase_ctor k n f) /\
  (forall (k : BCType) (n : Z) (f : BcFun),
     BCBase_int k n (Some f) = BCBase_ctor k n f).
Proof. repeat split. Qed.

(** C9: the predicate [isBCTypeEqual k] holds of a record exactly when the
    record's kind is [k]. Copying the records of a sequence on which it holds
    gives the records of kind [k] and only those, each as often as in the
    input and in the input's order: the result is the input filtered by
    "kind equals [k]", a subsequence of the input. *)
Theorem isBCTypeEqual_selects {BCName : Type} (k : BCType) :
  (forall b : BCBase BCName, isBCTypeEqual k b = true <-> BCBase_type b = k) /\
  (forall l : list (BCBase BCName),
     copy_if (isBCTypeEqual k) l = filter (fun b => BCBase_type b = k) l /\
     copy_if (isBCTypeEqual k) l `sublist_of` l /\
     (forall b, b ∈ copy_if (isBCTypeEqual k) l <->
                b ∈ l /\ BCBase_type b = k)).
Proof.
  split; [apply isBCTypeEqual_true|].
  intros l. rewrite copy_if_isBCTypeEqual. split; [reflexivity|]. split.
  - apply sublist_filter.
  - intros b. rewrite list_elem_of_filter. tauto.
Qed.

(** C10: a record built with no argument has kind [Dirichlet], name
    "Homogeneous", the global [zerofun] as its function, and no entity. *)
Theorem BCBase_default_arguments :
  BCBase_type (BCBase_string None None None) = Dirichlet /\
  BCBase_name (BCBase_string None None None) = "Homogeneous" /\
  _fun (BCBase_string None None None) = zerofun /\
  BCBase_entities (BCBase_string None None None) = [].
Proof. repeat split. Qed.

(** C1: [apply] on a record built without an explicit function. The default
    argument is the global [zerofun], which the header defines without a
    target; [apply] calls it, so for every time and coordinate pointer the
    call ends in [std::bad_function_call] instead of returning 0.0. This
    holds for both constructors. *)
Theorem apply_default_throws (t : float) (coord : coord_ptr) :
  (forall (k : option BCType) (n : option string),
     BCBase_apply (BCBase_string k n None) t coord
     = Throws bad_function_call) /\
  (forall (k : BCType) (n : Z),
     BCBase_apply (BCBase_int k n None) t coord = Throws bad_function_call).
Proof. repeat split. Qed.

(** ** The integrands *)

(** C7: [square x] is the product [x * x] and [fsincos x] is the product
    [sin x * cos x], for every double [x], as values of pure functions; with
    [==] on doubles, [square(3.0) == 9.0], and [fsincos(0.0) == 0.0] for a
    mathematical library whose [sin] maps 0 to 0 and whose [cos] maps 0
    to 1. *)
Theorem integrands_values (sin cos : float -> float) :
  sin 0%float = 0%float -> cos 0%float = 1%float ->
  (forall x : float, square x = (x * x)%float) /\
  (forall x : float, fsincos sin cos x = (sin x * cos x)%float) /\
  (square 3 =? 9)%float = true /\
  (fsincos sin cos 0 =? 0)%float = true.
Proof.
  intros Hsin Hcos. repeat split.
  unfold fsincos. rewrite Hsin, Hcos. reflexivity.
Qed.

Lemma integrands_values_witness :
  sin_poly 0%float = 0%float /\ cos_poly 0%float = 1%float /\
  (square 3 =? 9)%float = true /\
  (fsincos sin_poly cos_poly 0 =? 0)%float = true.
Proof.
  split; [reflexivity|]. split; [reflexivity|].
  apply (integrands_values sin_poly cos_poly eq_refl eq_refl).
Defined.

(** * Further properties of the identifiers, the records and the integrands *)

(** ** Identifiers: equality and kinds *)

Section Identifier_equality.
Context {BCName : Type} `{Less BCName}.

Lemma less_BCId_false_kind (a b : BCId BCName) :
  less b a = false -> BCType_value (type a) <= BCType_value (type b).
Proof.
  intros Hba.
  destruct (Z.ltb_spec (BCType_value (type b)) (BCType_value (type a)))
    as [Hlt|Hge]; [|exact Hge].
  assert (type b <> type a) as Hne by (intros E; rewrite E in Hlt; lia).
  rewrite (less_BCId_other_type b a Hne) in Hba.
  apply less_BCType_lt in Hlt. congruence.
Qed.

Lemma less_BCId_true_kind (a b : BCId BCName) :
  less a b = true -> BCType_value (type a) <= BCType_value (type b).
Proof.
  rewrite less_BCId_cases, less_BCType_lt. intros [Hlt|[E _]].
  - lia.
  - rewrite E. lia.
Qed.

Lemma equal_to_BCId_true (a b : BCId BCName) :
  equal_to a b = true -> less a b = false /\ less b a = false.
Proof.
  unfold equal_to, equal_to_BCId.
  now rewrite andb_true_iff, !negb_true_iff.
Qed.

Lemma less_BCType_asymmetric (s t : BCType) :
  less s t = true -> less t s = false.
Proof.
  rewrite less_BCType_lt. unfold less, less_BCType. rewrite Z.ltb_ge. lia.
Qed.

End Identifier_equality.

Section Identifier_equals.
Context {BCName : Type} `{Less BCName} `{EqDecision BCName}.

Lemma equal_to_BCId_fields (a b : BCId BCName) :
  less_irreflexive BCName -> less_connected BCName ->
  equal_to a b = true <-> type a = type b /\ name a = name b.
Proof.
  intros Hirr Hco. split.
  - intros E. apply equal_to_BCId_true in E as [Hab Hba].
    assert (type a = type b) as Et.
    { apply BCType_value_inj.
      pose proof (less_BCId_false_kind a b Hba).
      pose proof (less_BCId_false_kind b a Hab). lia. }
    split; [exact Et|].
    destruct (decide (name a = name b)) as [En|Hne]; [exact En|].
    rewrite (less_BCId_same_type a b Et) in Hab.
    rewrite (less_BCId_same_type b a (eq_sym Et)) in Hba.
    destruct (Hco _ _ Hne); congruence.
  - intros [Et En].
    rewrite (BCId_eq_fields a b Et En).
    unfold equal_to, equal_to_BCId.
    now rewrite (less_BCId_irreflexive Hirr b).
Qed.

End Identifier_equals.

(** X1: when [std::less] on the names is irreflexive and relates any two
    different names, [std::equal_to] on identifiers, although computed from
    two comparisons, holds exactly of identifiers with the same kind and the
    same name. *)
Theorem equal_to_BCId_iff_same {BCName : Type} `{Less BCName}
    `{EqDecision BCName} :
  less_irreflexive BCName -> less_connected BCName ->
  forall a b : BCId BCName,
    equal_to a b = true <-> type a = type b /\ name a = name b.
Proof. intros Hirr Hco a b. now apply equal_to_BCId_fields. Qed.

Lemma equal_to_BCId_iff_same_witness :
  less_irreflexive string /\ less_connected string /\
  (equal_to (make_BCId Robin "Wall") (make_BCId Robin "Inlet") = true <->
   Robin = Robin /\ "Wall" = "Inlet").
Proof.
  split; [apply less_string_irreflexive|].
  split; [apply less_string_connected|].
  apply (equal_to_BCId_iff_same less_string_irreflexive less_string_connected
           (make_BCId Robin "Wall") (make_BCId Robin "Inlet")).
Defined.

(** X2: two identifiers of different kinds are never equal and are always
    ordered, one way exactly, whatever their names are and however the names
    compare; in particular the same name may be used under two kinds. *)
Theorem other_kind_never_equal {BCName : Type} `{Less BCName}
    (a b : BCId BCName) :
  type a <> type b ->
  equal_to a b = false /\ less b a = negb (less a b).
Proof.
  intros Hne.
  assert (type b <> type a) as Hne' by congruence.
  assert (less b a = negb (less a b)) as E.
  { rewrite (less_BCId_other_type a b Hne), (less_BCId_other_type b a Hne').
    destruct (less_BCType_connected _ _ Hne) as [Hl|Hl]; rewrite Hl.
    - apply (less_BCType_asymmetric _ _ Hl).
    - simpl. now rewrite (less_BCType_asymmetric _ _ Hl). }
  split; [|exact E].
  unfold equal_to, equal_to_BCId. rewrite E.
  now destruct (less a b).
Qed.

Lemma other_kind_never_equal_witness :
  type (make_BCId Dirichlet "Wall") <> type (make_BCId Neumann "Wall") /\
  equal_to (make_BCId Dirichlet "Wall") (make_BCId Neumann "Wall") = false /\
  less (make_BCId Neumann "Wall") (make_BCId Dirichlet "Wall")
  = negb (less (make_BCId Dirichlet "Wall") (make_BCId Neumann "Wall")).
Proof.
  split; [discriminate|].
  apply (other_kind_never_equal (make_BCId Dirichlet "Wall")
                                (make_BCId Neumann "Wall")).
  discriminate.
Defined.

(** ** Sorted sequences of records *)

Section Sorted_records.
Context {BCName : Type} `{Less BCName}.

Lemma all_adjacent_tail {A : Type} (rel : A -> A -> bool) (x : A)
    (l : list A) :
  all_adjacent rel (x :: l) = true -> all_adjacent rel l = true.
Proof.
  destruct l as [|y l]; [reflexivity|].
  intros E. change (rel x y && all_adjacent rel (y :: l) = true) in E.
  now apply andb_prop in E as [_ E].
Qed.

Lemma all_adjacent_head {A : Type} (rel : A -> A -> bool) (x y : A)
    (l : list A) :
  all_adjacent rel (x :: y :: l) = true -> rel x y = true.
Proof.
  intros E. change (rel x y && all_adjacent rel (y :: l) = true) in E.
  now apply andb_prop in E as [E _].
Qed.

(** Along a sorted sequence the kinds never decrease. *)
Lemma is_sorted_kinds (x : BCBase BCName) (l : list (BCBase BCName)) :
  is_sorted BCBase_lt (x :: l) = true ->
  Forall (fun y => BCType_value (BCBase_type x) <= BCType_value (BCBase_type y))
         l.
Proof.
  revert x. induction l as [|y l IH]; intros x Hs; [constructor|].
  assert (BCType_value (BCBase_type x) <= BCType_value (BCBase_type y)) as Hxy.
  { unfold is_sorted in Hs.
    apply all_adjacent_head in Hs. apply negb_true_iff in Hs.
    now apply less_BCId_false_kind. }
  constructor; [exact Hxy|].
  pose proof (all_adjacent_tail _ _ _ Hs) as Hs'.
  eapply Forall_impl; [apply (IH y Hs')|].
  simpl. intros z Hz. lia.
Qed.

(** In a strictly sorted sequence the head is less than every later
    record. *)
Lemma is_strictly_sorted_head (x : BCBase BCName)
    (l : list (BCBase BCName)) :
  less_transitive BCName ->
  is_strictly_sorted BCBase_lt (x :: l) = true ->
  Forall (fun y => BCBase_lt x y = true) l.
Proof.
  intros Htr. revert x. induction l as [|y l IH]; intros x Hs; [constructor|].
  pose proof (all_adjacent_head _ _ _ _ Hs) as Hxy.
  constructor; [exact Hxy|].
  pose proof (all_adjacent_tail _ _ _ Hs) as Hs'.
  eapply Forall_impl; [apply (IH y Hs')|].
  simpl. intros z Hyz.
  now apply (less_BCId_transitive Htr (_id x) (_id y) (_id z)).
Qed.

Lemma copy_if_none {A : Type} (pred : A -> bool) (l : list A) :
  Forall (fun y => pred y = false) l -> copy_if pred l = [].
Proof.
  unfold copy_if. induction 1 as [|y l Hy _ IH]; [reflexivity|].
  simpl. now rewrite Hy.
Qed.

Lemma isBCTypeEqual_false (k : BCType) (b : BCBase BCName) :
  BCType_value (BCBase_type b) <> BCType_value k ->
  isBCTypeEqual k b = false.
Proof.
  intros Hne. destruct (isBCTypeEqual k b) eqn:E; [|reflexivity].
  apply isBCTypeEqual_true in E. now rewrite E in Hne.
Qed.

End Sorted_records.

(** X3: in a sequence of records sorted by [operator<], the records of one
    kind stand together: the sequence is a run of records of smaller kinds,
    then exactly the records that [isBCTypeEqual k] selects, then a run of
    records of greater kinds. No property of the name order is needed. *)
Theorem sorted_kind_block {BCName : Type} `{Less BCName}
    (k : BCType) (l : list (BCBase BCName)) :
  is_sorted BCBase_lt l = true ->
  exists before after : list (BCBase BCName),
    l = before ++ copy_if (isBCTypeEqual k) l ++ after /\
    Forall (fun b => BCType_value (BCBase_type b) < BCType_value k) before /\
    Forall (fun b => BCType_value k < BCType_value (BCBase_type b)) after.
Proof.
  induction l as [|x l IH]; intros Hs.
  - exists [], []. repeat split; constructor.
  - pose proof (is_sorted_kinds x l Hs) as Hx.
    destruct (IH (all_adjacent_tail _ _ _ Hs))
      as (before & after & El & Hb & Ha).
    destruct (Z.lt_trichotomy (BCType_value (BCBase_type x)) (BCType_value k))
      as [Hlt|[Heq|Hgt]].
    + exists (x :: before), after. split; [|split].
      * unfold copy_if in *. simpl.
        rewrite (isBCTypeEqual_false k x) by lia.
        simpl. now rewrite <- El.
      * now constructor.
      * exact Ha.
    + assert (before = []) as ->.
      { destruct before as [|y before]; [reflexivity|]. exfalso.
        assert (y ∈ l) as Hy by (rewrite El; apply list_elem_of_here).
        apply Forall_inv in Hb.
        rewrite Forall_forall in Hx. specialize (Hx y Hy). simpl in Hx. lia. }
      exists [], after. split; [|split].
      * unfold copy_if in *. simpl.
        rewrite (proj2 (isBCTypeEqual_true k x) (BCType_value_inj _ _ Heq)).
        simpl. f_equal. exact El.
      * constructor.
      * exact Ha.
    + exists [], (x :: l).
      assert (Forall (fun b => BCType_value k < BCType_value (BCBase_type b))
                     (x :: l)) as Hall.
      { constructor; [lia|].
        eapply Forall_impl; [exact Hx|]. simpl. intros; lia. }
      split; [|split].
      * rewrite copy_if_none; [reflexivity|].
        eapply Forall_impl; [exact Hall|]. simpl.
        intros b Hb'. apply isBCTypeEqual_false. lia.
      * constructor.
      * exact Hall.
Qed.

Lemma sorted_kind_block_witness :
  is_sorted BCBase_lt
    [BCBase_string (Some Dirichlet) (Some "Floor") None;
     BCBase_string (Some Dirichlet) (Some "Wall") None;
     BCBase_string (Some Neumann) (Some "Inlet") None] = true /\
  exists before after : list (BCBase string),
    [BCBase_string (Some Dirichlet) (Some "Floor") None;
     BCBase_string (Some Dirichlet) (Some "Wall") None;
     BCBase_string (Some Neumann) (Some "Inlet") None]
    = before ++
      copy_if (isBCTypeEqual Dirichlet)
        [BCBase_string (Some Dirichlet) (Some "Floor") None;
         BCBase_string (Some Dirichlet) (Some "Wall") None;
         BCBase_string (Some Neumann) (Some "Inlet") None] ++ after /\
    Forall (fun b => BCType_value (BCBase_type b) < BCType_value Dirichlet)
           before /\
    Forall (fun b => BCType_value Dirichlet < BCType_value (BCBase_type b))
           after.
Proof.
  split; [reflexivity|].
  apply (sorted_kind_block Dirichlet); reflexivity.
Defined.

(** X4: when [std::less] on the names is irreflexive and transitive, a
    sequence of records in strictly increasing [operator<] order, such as
    the traversal of a set of records, holds no two records with the same
    identifier. *)
Theorem strictly_sorted_distinct_ids {BCName : Type} `{Less BCName}
    (l : list (BCBase BCName)) :
  less_irreflexive BCName -> less_transitive BCName ->
  is_strictly_sorted BCBase_lt l = true ->
  NoDup (map BCBase_get_Id l).
Proof.
  intros Hirr Htr. induction l as [|x l IH]; intros Hs.
  - constructor.
  - simpl. constructor.
    + intros Hin. apply list_elem_of_fmap in Hin as (y & Ey & Hy).
      pose proof (is_strictly_sorted_head x l Htr Hs) as Hx.
      rewrite Forall_forall in Hx. specialize (Hx y Hy).
      unfold BCBase_lt, BCBase_get_Id in *. rewrite <- Ey in Hx.
      rewrite (less_BCId_irreflexive Hirr (_id x)) in Hx. discriminate.
    + apply IH. exact (all_adjacent_tail _ _ _ Hs).
Qed.

Lemma strictly_sorted_distinct_ids_witness :
  less_irreflexive string /\ less_transitive string /\
  is_strictly_sorted BCBase_lt
    [BCBase_string (Some Dirichlet) (Some "Floor") None;
     BCBase_string (Some Dirichlet) (Some "Wall") None;
     BCBase_string (Some Neumann) (Some "Inlet") None] = true /\
  NoDup (map BCBase_get_Id
    [BCBase_string (Some Dirichlet) (Some "Floor") None;
     BCBase_string (Some Dirichlet) (Some "Wall") None;
     BCBase_string (Some Neumann) (Some "Inlet") None]).
Proof.
  split; [apply less_string_irreflexive|].
  split; [apply less_string_transitive|].
  split; [reflexivity|].
  apply (strictly_sorted_distinct_ids _ less_string_irreflexive
           less_string_transitive).
  reflexivity.
Defined.

(** ** Records: equality, the name predicate, the setters *)

Section Record_equality.
Context {BCName : Type}.

Lemma copy_if_filter {A : Type} (pred : A -> bool) (P : A -> Prop)
    `{forall x, Decision (P x)} (l : list A) :
  (forall x, pred x = true <-> P x) -> copy_if pred l = filter P l.
Proof.
  intros Hp. unfold copy_if.
  induction l as [|x l IH]; [reflexivity|].
  simpl. rewrite filter_cons, IH.
  destruct (decide (P x)) as [E|E].
  - now rewrite (proj2 (Hp x) E).
  - destruct (pred x) eqn:Ex; [|reflexivity].
    apply Hp in Ex. contradiction.
Qed.

Lemma BCBase_eta (b : BCBase BCName) :
  Build_BCBase (_entities b) (_fun b) (_id b) = b.
Proof. now destruct b. Qed.

End Record_equality.

Lemma isBCNameEqual_string (n : string) (b : BCBase string) :
  isBCNameEqual n b = true <-> BCBase_name b = n.
Proof. apply String.eqb_eq. Qed.

Lemma isBCNameEqual_int (n : Z) (b : BCBase Z) :
  isBCNameEqual n b = true <-> BCBase_name b = n.
Proof. apply Z.eqb_eq. Qed.

Lemma BCBase_eq_same_id_string (l r : BCBase string) :
  BCBase_eq l r = true <-> BCBase_get_Id l = BCBase_get_Id r.
Proof.
  unfold BCBase_eq, BCBase_get_Id.
  rewrite (equal_to_BCId_fields (_id l) (_id r)
             less_string_irreflexive less_string_connected).
  split.
  - intros [Et En]. now apply BCId_eq_fields.
  - now intros ->.
Qed.

Lemma BCBase_eq_same_id_int (l r : BCBase Z) :
  BCBase_eq l r = true <-> BCBase_get_Id l = BCBase_get_Id r.
Proof.
  unfold BCBase_eq, BCBase_get_Id.
  rewrite (equal_to_BCId_fields (_id l) (_id r)
             less_int_irreflexive less_int_connected).
  split.
  - intros [Et En]. now apply BCId_eq_fields.
  - now intros ->.
Qed.

(** X5: for records named by strings, and for records named by integers,
    [l == r] holds exactly when [l] and [r] have the same identifier, which
    is exactly when [l] passes both predicates [isBCTypeEqual] and
    [isBCNameEqual] built from the kind and the name of [r]. *)
Theorem BCBase_eq_by_predicates :
  (forall l r : BCBase string,
     (BCBase_eq l r = true <-> BCBase_get_Id l = BCBase_get_Id r) /\
     BCBase_eq l r
     = isBCTypeEqual (BCBase_type r) l && isBCNameEqual (BCBase_name r) l) /\
  (forall l r : BCBase Z,
     (BCBase_eq l r = true <-> BCBase_get_Id l = BCBase_get_Id r) /\
     BCBase_eq l r
     = isBCTypeEqual (BCBase_type r) l && isBCNameEqual (BCBase_name r) l).
Proof.
  split; intros l r.
  - split; [apply BCBase_eq_same_id_string|].
    apply eq_true_iff_eq.
    rewrite andb_true_iff, isBCTypeEqual_true, isBCNameEqual_string.
    unfold BCBase_eq, BCBase_type, BCBase_name.
    apply (equal_to_BCId_fields (_id l) (_id r)
             less_string_irreflexive less_string_connected).
  - split; [apply BCBase_eq_same_id_int|].
    apply eq_true_iff_eq.
    rewrite andb_true_iff, isBCTypeEqual_true, isBCNameEqual_int.
    unfold BCBase_eq, BCBase_type, BCBase_name.
    apply (equal_to_BCId_fields (_id l) (_id r)
             less_int_irreflexive less_int_connected).
Qed.

(** X6: the predicate [isBCNameEqual n] holds of a record exactly when the
    record's name is [n], for string and for integer names; copying the
    records on which it holds gives the input filtered by "name equals [n]",
    in the input's order. *)
Theorem isBCNameEqual_selects :
  (forall (n : string) (b : BCBase string),
     isBCNameEqual n b = true <-> BCBase_name b = n) /\
  (forall (n : string) (l : list (BCBase string)),
     copy_if (isBCNameEqual n) l = filter (fun b => BCBase_name b = n) l /\
     copy_if (isBCNameEqual n) l `sublist_of` l) /\
  (forall (n : Z) (b : BCBase Z),
     isBCNameEqual n b = true <-> BCBase_name b = n) /\
  (forall (n : Z) (l : list (BCBase Z)),
     copy_if (isBCNameEqual n) l = filter (fun b => BCBase_name b = n) l /\
     copy_if (isBCNameEqual n) l `sublist_of` l).
Proof.
  split; [apply isBCNameEqual_string|].
  split.
  - intros n l.
    rewrite (copy_if_filter _ (fun b => BCBase_name b = n) l
               (isBCNameEqual_string n)).
    split; [reflexivity|apply sublist_filter].
  - split; [apply isBCNameEqual_int|].
    intros n l.
    rewrite (copy_if_filter _ (fun b => BCBase_name b = n) l
               (isBCNameEqual_int n)).
    split; [reflexivity|apply sublist_filter].
Qed.

(** X7: what [apply] gives after the setters. Once [set_fun] has stored a
    target, [apply] returns the target's value, whatever function the record
    had before (so also on a record built with the default function); storing
    [zerofun] makes [apply] throw; [set_Id] never changes what [apply] gives;
    and [apply] throws exactly on the records whose function is empty. *)
Theorem apply_after_setters {BCName : Type} (b : BCBase BCName)
    (t : float) (coord : coord_ptr) :
  (forall f : float -> coord_ptr -> float,
     BCBase_apply (BCBase_set_fun (Some f) b) t coord = Returns (f t coord)) /\
  BCBase_apply (BCBase_set_fun zerofun b) t coord = Throws bad_function_call /\
  (forall id : BCId BCName,
     BCBase_apply (BCBase_set_Id id b) t coord = BCBase_apply b t coord) /\
  (BCBase_apply b t coord = Throws bad_function_call <-> _fun b = zerofun).
Proof.
  repeat split.
  - unfold BCBase_apply, zerofun. destruct (_fun b); [discriminate|reflexivity].
  - unfold BCBase_apply. now intros ->.
Qed.

(** X8: [set_Id] and [get_Id]. Storing a record's own identifier changes
    nothing, [get_Id] reads what [set_Id] stored, a second [set_Id] overrides
    the first, [set_Id] and [set_fun] can be called in either order, and
    [set_Id] keeps the entities and the function. After [set_Id] the record
    is ordered as its new identifier is; so, with string or integer names, a
    record given the identifier of [r] is [==] to [r]. *)
Theorem set_Id_get_Id :
  (forall (BCName : Type) (b : BCBase BCName) (id id' : BCId BCName)
          (f : BcFun),
     BCBase_set_Id (BCBase_get_Id b) b = b /\
     BCBase_get_Id (BCBase_set_Id id b) = id /\
     BCBase_set_Id id (BCBase_set_Id id' b) = BCBase_set_Id id b /\
     BCBase_set_fun f (BCBase_set_Id id b)
     = BCBase_set_Id id (BCBase_set_fun f b) /\
     BCBase_entities (BCBase_set_Id id b) = BCBase_entities b /\
     _fun (BCBase_set_Id id b) = _fun b) /\
  (forall (BCName : Type) (L : Less BCName) (b other : BCBase BCName)
          (id : BCId BCName),
     BCBase_lt (BCBase_set_Id id b) other = less id (BCBase_get_Id other) /\
     BCBase_lt other (BCBase_set_Id id b) = less (BCBase_get_Id other) id) /\
  (forall l r : BCBase string,
     BCBase_eq (BCBase_set_Id (BCBase_get_Id r) l) r = true) /\
  (forall l r : BCBase Z,
     BCBase_eq (BCBase_set_Id (BCBase_get_Id r) l) r = true).
Proof.
  split; [|split; [|split]].
  - intros BCName b id id' f. repeat split. apply BCBase_eta.
  - intros; split; reflexivity.
  - intros l r. now apply BCBase_eq_same_id_string.
  - intros l r. now apply BCBase_eq_same_id_int.
Qed.

(** ** The integrands on IEEE doubles *)

Section Binary64.
Import SpecFloat.

Lemma binary_round_aux_sign (prec emax : Z) (s : bool) (m e : Z)
    (l : location) :
  binary_round_aux prec emax s m e l = S754_nan \/
  binary_round_aux prec emax s m e l = S754_zero s \/
  binary_round_aux prec emax s m e l = S754_infinity s \/
  exists m' e', binary_round_aux prec emax s m e l = S754_finite s m' e'.
Proof.
  unfold binary_round_aux.
  destruct (shr_fexp prec emax m e l) as [mrs' e'].
  destruct (shr_fexp prec emax _ e' loc_Exact) as [mrs'' e''].
  destruct (shr_m mrs'') as [|p|p]; auto.
  destruct (e'' <=? emax - prec); [|auto].
  right. right. right. eauto.
Qed.









End Binary64.


(** X10: [square] never returns a value below zero: [square(x) < 0.0] is
    false for every double [x], also when the product overflows, underflows
    or is NaN. *)
Theorem square_not_negative (x : float) : (square x <? 0)%float = false.
Proof.
  unfold square. rewrite FloatAxioms.ltb_spec, FloatAxioms.mul_spec.
  change (FloatOps.Prim2SF 0) with (SpecFloat.S754_zero false).
  unfold FloatAxioms.SF64mul.
  destruct (FloatOps.Prim2SF x) as [s|s| |s m e]; simpl;
    try reflexivity; try (now destruct s).
  rewrite xorb_nilpotent.
  destruct (binary_round_aux_sign FloatOps.prec FloatOps.emax false
              (Z.pos (m * m)) (e + e) SpecFloat.loc_Exact)
    as [E|[E|[E|(m' & e' & E)]]]; rewrite E; reflexivity.
Qed.



(** ** Positions in a strictly sorted sequence *)

Lemma is_strictly_sorted_lookup {BCName : Type} `{Less BCName}
    (l : list (BCBase BCName)) :
  less_transitive BCName ->
  is_strictly_sorted BCBase_lt l = true ->
  forall (i j : nat) (a b : BCBase BCName),
    (i < j)%nat -> l !! i = Some a -> l !! j = Some b ->
    BCBase_lt a b = true.
Proof.
  intros Htr. induction l as [|x l IH]; intros Hs i j a b Hij Ha Hb.
  - discriminate.
  - destruct j as [|j]; [lia|]. destruct i as [|i]; simpl in Ha, Hb.
    + injection Ha as <-.
      pose proof (is_strictly_sorted_head x l Htr Hs) as Hx.
      rewrite Forall_forall in Hx. apply Hx.
      apply list_elem_of_lookup. now exists j.
    + apply (IH (all_adjacent_tail _ _ _ Hs) i j); [lia|assumption..].
Qed.

(** X12: when [std::less] on the names is transitive, in a sequence of
    records in strictly increasing [operator<] order a record that comes
    earlier than another one is less than it: it has a smaller kind, or the
    same kind and the smaller name. *)
Theorem strictly_sorted_positions {BCName : Type} `{Less BCName}
    (l : list (BCBase BCName)) (i j : nat) (a b : BCBase BCName) :
  less_transitive BCName ->
  is_strictly_sorted BCBase_lt l = true ->
  (i < j)%nat -> l !! i = Some a -> l !! j = Some b ->
  BCType_value (BCBase_type a) < BCType_value (BCBase_type b) \/
  (BCBase_type a = BCBase_type b /\
   less (BCBase_name a) (BCBase_name b) = true).
Proof.
  intros Htr Hs Hij Ha Hb.
  pose proof (is_strictly_sorted_lookup l Htr Hs i j a b Hij Ha Hb) as Hab.
  unfold BCBase_lt in Hab. apply less_BCId_cases in Hab.
  rewrite less_BCType_lt in Hab. exact Hab.
Qed.

Lemma strictly_sorted_positions_witness :
  less_transitive string /\
  is_strictly_sorted BCBase_lt
    [BCBase_string (Some Dirichlet) (Some "Floor") None;
     BCBase_string (Some Dirichlet) (Some "Wall") None;
     BCBase_string (Some Neumann) (Some "Inlet") None] = true /\
  (0 < 1)%nat /\
  [BCBase_string (Some Dirichlet) (Some "Floor") None;
   BCBase_string (Some Dirichlet) (Some "Wall") None;
   BCBase_string (Some Neumann) (Some "Inlet") None] !! 0%nat
  = Some (BCBase_string (Some Dirichlet) (Some "Floor") None) /\
  [BCBase_string (Some Dirichlet) (Some "Floor") None;
   BCBase_string (Some Dirichlet) (Some "Wall") None;
   BCBase_string (Some Neumann) (Some "Inlet") None] !! 1%nat
  = Some (BCBase_string (Some Dirichlet) (Some "Wall") None) /\
  (BCType_value Dirichlet < BCType_value Dirichlet \/
   (Dirichlet = Dirichlet /\ less "Floor" "Wall" = true)).
Proof.
  split; [apply less_string_transitive|].
  split; [reflexivity|].
  split; [lia|].
  split; [reflexivity|].
  split; [reflexivity|].
  apply (strictly_sorted_positions
           [BCBase_string (Some Dirichlet) (Some "Floor") None;
            BCBase_string (Some Dirichlet) (Some "Wall") None;
            BCBase_string (Some Neumann) (Some "Inlet") None]
           0 1 (BCBase_string (Some Dirichlet) (Some "Floor") None)
           (BCBase_string (Some Dirichlet) (Some "Wall") None)
           less_string_transitive eq_refl);
    [lia|reflexivity|reflexivity].
Defined.
